(** * The events replication stream (synapse/replication/tcp/streams/events.py)

    A shallow embedding of the row classes, the row type registry, the
    [parse_row] decoder and the [update_function] poll of [EventsStream],
    with the properties the specification states about them. *)

From stdpp Require Import base numbers strings list gmap.

Local Open Scope string_scope.
Local Open Scope list_scope.
Local Open Scope Z_scope.

(** ** Python values and instances *)

(** Instances of the two [attr.s] classes live in a heap and are referred to
    by their address. *)
Abbreviation loc := nat (only parsing).

(** The values that travel through the stream: [None], integers (stream
    positions), strings, tuples (database rows, JSON arrays, slices) and
    references to instances. *)
#[warnings="-register-all"] Inductive value : Type :=
| VNone
| VInt (n : Z)
| VStr (s : string)
| VTuple (items : list value)
| VRef (l : loc).

(** The state of an instance: its class and the values of its attributes.
    An [attr.ib()] without validator accepts any value. *)
Inductive instance : Type :=
| EventsStreamRow (type data : value)
| EventsStreamEventRow (event_id room_id type state_key redacts : value).

(** The heap: the instances constructed so far, in order of construction;
    the address of an instance is its index. *)
Abbreviation heap := (list instance) (only parsing).

(** The exceptions the modelled code can raise. *)
Inductive exn : Type :=
| KeyError (key : string)
| TypeError
| IndexError
| AttributeError
| FrozenInstanceError
| StorageError (msg : string).

Inductive result (A : Type) : Type :=
| Ok (a : A)
| Raise (e : exn).
Arguments Ok {A} a.
Arguments Raise {A} e.

#[global] Instance result_ret : MRet result := fun A a => Ok a.
#[global] Instance result_bind : MBind result := fun A B f m =>
  match m with
  | Ok a => f a
  | Raise e => Raise e
  end.

(** Code that constructs instances: it runs on a heap and leaves a heap; an
    exception leaves the heap as it is when it is raised. *)
Definition M (A : Type) : Type := heap -> result A * heap.

Definition ret {A : Type} (a : A) : M A := fun h => (Ok a, h).
Definition raise {A : Type} (e : exn) : M A := fun h => (Raise e, h).
Definition bind {A B : Type} (m : M A) (k : A -> M B) : M B :=
  fun h =>
    match m h with
    | (Ok a, h') => k a h'
    | (Raise e, h') => (Raise e, h')
    end.

Notation "x <~ m ;; k" := (bind m (fun x => k))
  (at level 100, m at next level, right associativity).

(** Construction of an instance: it gets the next address. *)
Definition alloc (o : instance) : M value :=
  fun h => (Ok (VRef (length h)), h ++ [o]).

(** ** Row classes *)

(** The subclasses of [BaseEventsStreamRow]. *)
Inductive row_class : Type :=
| EventsStreamEventRowClass.

#[global] Instance row_class_eq_dec : EqDecision row_class.
Proof. solve_decision. Defined.

(** [TypeId]: the class attribute that identifies the row type. *)
Definition TypeId (cls : row_class) : string :=
  match cls with
  | EventsStreamEventRowClass => "ev"
  end.

(** The [attr.ib()] attributes of a class, in declaration order. *)
Definition attribs (cls : row_class) : list string :=
  match cls with
  | EventsStreamEventRowClass =>
      ["event_id"; "room_id"; "type"; "state_key"; "redacts"]
  end.

(** Calling the class on unpacked arguments, [cls( *args )]: the [__init__]
    that attrs generates takes one positional argument per attribute, none
    with a default; any other number of arguments is a [TypeError]. *)
Definition init (cls : row_class) (args : list value) : M value :=
  match cls, args with
  | EventsStreamEventRowClass, [event_id; room_id; type; state_key; redacts] =>
      alloc (EventsStreamEventRow event_id room_id type state_key redacts)
  | EventsStreamEventRowClass, _ => raise TypeError
  end.

(** [BaseEventsStreamRow.from_data]: [return cls( *data )]. *)
Definition from_data (cls : row_class) (data : list value) : M value :=
  init cls data.

(** The row class of an instance, and the attribute values of an instance
    in declaration order. *)
Definition class_of (row : instance) : option row_class :=
  match row with
  | EventsStreamEventRow _ _ _ _ _ => Some EventsStreamEventRowClass
  | EventsStreamRow _ _ => None
  end.

Definition astuple (o : instance) : list value :=
  match o with
  | EventsStreamEventRow event_id room_id type state_key redacts =>
      [event_id; room_id; type; state_key; redacts]
  | EventsStreamRow type data => [type; data]
  end.

(** ** The row type registry *)

(** [TypeToRow = {Row.TypeId: Row for Row in (EventsStreamEventRow,)}]: a
    dict comprehension, later entries overwrite earlier ones. *)
Definition registered : list row_class := [EventsStreamEventRowClass].

Definition TypeToRow : gmap string row_class :=
  foldl (fun m Row => <[TypeId Row := Row]> m) ∅ registered.

(** ** EventsStream.parse_row *)

(** [(typ, data) = row; data = TypeToRow[typ].from_data(data);
    return EventsStreamRow(typ, data)].  A missing dict key is a
    [KeyError]. *)
Definition parse_row (row : string * list value) : M value :=
  let '(typ, data) := row in
  match TypeToRow !! typ with
  | None => raise (KeyError typ)
  | Some Row =>
      data' <~ from_data Row data;;
      alloc (EventsStreamRow (VStr typ) data')
  end.

(** Modelled from the spec: the encode direction of the row codec (§4.2,
    no function of the module implements it): a typed row decomposes into
    its tag and the ordered sequence of its field values, in declaration
    order. *)
Definition encode (row : instance) : option (string * list value) :=
  cls ← class_of row;
  Some (TypeId cls, astuple row).

(** ** Attribute assignment *)

(** The [frozen] option of the [attr.s] decorator of the instance's
    class: both classes are declared [attr.s(slots=True, frozen=True)]. *)
Definition frozen (o : instance) : bool :=
  match o with
  | EventsStreamRow _ _ => true
  | EventsStreamEventRow _ _ _ _ _ => true
  end.

(** Plain assignment to a slot: the attribute takes the value; a class with
    [slots=True] has no other attribute to assign. *)
Definition assign (o : instance) (name : string) (v : value)
  : result instance :=
  match o with
  | EventsStreamRow type data =>
      if decide (name = "type") then Ok (EventsStreamRow v data)
      else if decide (name = "data") then Ok (EventsStreamRow type v)
      else Raise AttributeError
  | EventsStreamEventRow event_id room_id type state_key redacts =>
      if decide (name = "event_id") then
        Ok (EventsStreamEventRow v room_id type state_key redacts)
      else if decide (name = "room_id") then
        Ok (EventsStreamEventRow event_id v type state_key redacts)
      else if decide (name = "type") then
        Ok (EventsStreamEventRow event_id room_id v state_key redacts)
      else if decide (name = "state_key") then
        Ok (EventsStreamEventRow event_id room_id type v redacts)
      else if decide (name = "redacts") then
        Ok (EventsStreamEventRow event_id room_id type state_key v)
      else Raise AttributeError
  end.

(** [obj.name = v] on the instance at address [l]: the [__setattr__] of a
    frozen class raises [FrozenInstanceError]. *)
Definition setattr (l : loc) (name : string) (v : value) : M value :=
  fun h =>
    match h !! l with
    | None => (Raise AttributeError, h)
    | Some o =>
        if frozen o then (Raise FrozenInstanceError, h)
        else
          match assign o name v with
          | Ok o' => (Ok VNone, <[l := o']> h)
          | Raise e => (Raise e, h)
          end
    end.

(** The operations on rows: the three ways the module constructs an
    instance, and assignment to an attribute of an instance. *)
Inductive operation : Type :=
| op_from_data (cls : row_class) (data : list value)
| op_EventsStreamRow (typ data : value)
| op_parse_row (row : string * list value)
| op_setattr (l : loc) (name : string) (v : value).

Definition exec (op : operation) : M value :=
  match op with
  | op_from_data cls data => from_data cls data
  | op_EventsStreamRow typ data => alloc (EventsStreamRow typ data)
  | op_parse_row row => parse_row row
  | op_setattr l name v => setattr l name v
  end.

(** A sequence of operations, each on the heap the previous one left,
    whether it returned or raised. *)
Definition exec_all (ops : list operation) (h : heap) : heap :=
  foldl (fun h op => (exec op h).2) h ops.

(** ** The datastore boundary *)

(** A raw row of the datastore is a tuple; [update_function] reads its first
    element as the stream position and keeps the rest as the row data. *)
Abbreviation raw_row := (list value) (only parsing).

(** The one request [EventsStream] sends to the datastore. *)
Inductive store_call : Type :=
| get_all_new_forward_event_rows
    (from_token current_token : Z) (limit : option nat).

(** The datastore, seen from the stream: each request either returns a list
    of raw rows or raises. *)
Definition datastore : Type := store_call -> result (list raw_row).

(** A [defer.inlineCallbacks] function: it either finishes with
    [defer.returnValue], or yields a request to the datastore and is resumed
    with the rows.  No function of the module catches an exception, so a
    request that raises ends the call with that exception. *)
Inductive inlineCallbacks (A : Type) : Type :=
| returnValue (a : A)
| yield_ (d : store_call) (k : list raw_row -> inlineCallbacks A).
Arguments returnValue {A} a.
Arguments yield_ {A} d k.

(** Drive a call against a datastore: the outcome, and the requests issued,
    in order. *)
Fixpoint run {A : Type} (store : datastore) (c : inlineCallbacks A)
  : result A * list store_call :=
  match c with
  | returnValue a => (Ok a, [])
  | yield_ d k =>
      match store d with
      | Ok rows => let '(r, calls) := run store (k rows) in (r, d :: calls)
      | Raise e => (Raise e, [d])
      end
  end.

(** ** EventsStream.update_function *)

(** [row[0]]: indexing an empty tuple is an [IndexError]. *)
Definition getitem0 (row : raw_row) : result value :=
  match row !! 0%nat with
  | Some x => Ok x
  | None => Raise IndexError
  end.

(** One element of the generator expression:
    [(row[0], EventsStreamEventRow.TypeId, row[1:])]. *)
Definition event_update (row : raw_row) : result value :=
  position ← getitem0 row;
  Ok (VTuple [position; VStr (TypeId EventsStreamEventRowClass);
              VTuple (drop 1 row)]).

(** The generator expression over [event_rows]: element [i] is the outcome
    of the [i+1]-th [next()], were the generator driven that far. *)
Abbreviation generator := (list (result value)) (only parsing).

Definition event_updates (event_rows : list raw_row) : generator :=
  event_update <$> event_rows.

(** Iterating a generator to its end, [list(gen)]: the first exception
    stops the iteration. *)
Fixpoint list_of (gen : generator) : result (list value) :=
  match gen with
  | [] => Ok []
  | r :: gen' =>
      item ← r;
      items ← list_of gen';
      Ok (item :: items)
  end.

Definition update_function
    (from_token current_token : Z) (limit : option nat)
  : inlineCallbacks generator :=
  yield_ (get_all_new_forward_event_rows from_token current_token limit)
    (fun event_rows => returnValue (event_updates event_rows)).

(** A raw row given as its first element and the rest, and the update
    [update_function] makes of it. *)
Definition row_of (r : value * list value) : list value := r.1 :: r.2.

Definition update_of (r : value * list value) : value :=
  VTuple [r.1; VStr "ev"; VTuple r.2].

(** ** The authority *)

(** Modelled from the spec: a raw change record of the authority (§6), the
    tuple [(position, event_id, room_id, kind, state_key_or_null,
    redacts_or_null)]; the datastore module that holds them is not part of
    the sources. *)
Record change_record : Type := {
  position : Z;
  event_id : string;
  room_id : string;
  kind : string;
  state_key : option string;
  redacts : option string;
}.

Definition nullable (o : option string) : value :=
  match o with
  | Some s => VStr s
  | None => VNone
  end.

Definition columns (r : change_record) : list value :=
  [VStr (event_id r); VStr (room_id r); VStr (kind r);
   nullable (state_key r); nullable (redacts r)].

Definition raw_tuple (r : change_record) : raw_row :=
  VInt (position r) :: columns r.

(** Insertion of a record before the first one that is not at an earlier
    position: records at one position keep their emission order. *)
Fixpoint insert_by_position (r : change_record) (l : list change_record)
  : list change_record :=
  match l with
  | [] => [r]
  | r' :: l' =>
      if bool_decide (position r ≤ position r') then r :: r' :: l'
      else r' :: insert_by_position r l'
  end.

Definition sort_by_position (l : list change_record) : list change_record :=
  foldr insert_by_position [] l.

Definition in_range (from_token to_token : Z) (r : change_record) : bool :=
  bool_decide (from_token < position r) && bool_decide (position r ≤ to_token).

Definition cap {A : Type} (limit : option nat) (l : list A) : list A :=
  match limit with
  | Some n => take n l
  | None => l
  end.

(** Modelled from the spec: the query of the authority (§4.3, §6), absent
    from the sources: all raw change records with position in
    [(from_token, to_token]], ordered by position ascending, ties in
    emission order, capped at [limit] records if provided.  The argument is
    the authority's log in emission order. *)
Definition query_changes (log : list change_record)
    (from_token to_token : Z) (limit : option nat) : list change_record :=
  cap limit
    (sort_by_position
       (filter (fun r => Is_true (in_range from_token to_token r)) log)).

Definition authority (log : list change_record) : datastore :=
  fun d =>
    match d with
    | get_all_new_forward_event_rows from_token current_token limit =>
        Ok (raw_tuple <$> query_changes log from_token current_token limit)
    end.

(** [poll_changes] against an authority holding [log]: the sequence that the
    generator returned by [update_function] yields. *)
Definition poll_changes (log : list change_record)
    (from_token to_token : Z) (limit : option nat) : result (list value) :=
  gen ← (run (authority log) (update_function from_token to_token limit)).1;
  list_of gen.

(** The authority of the specification's scenario (§8). *)
Definition scenario_log : list change_record :=
  [ {| position := 10; event_id := "$a"; room_id := "!r1"; kind := "m.text";
       state_key := None; redacts := None |};
    {| position := 11; event_id := "$b"; room_id := "!r1";
       kind := "m.redaction"; state_key := None; redacts := Some "$a" |} ].

(** * Properties *)

(** ** The registry *)

Lemma TypeToRow_registered (cls : row_class) :
  TypeToRow !! TypeId cls = Some cls.
Proof. destruct cls; reflexivity. Qed.

Lemma TypeToRow_lookup_Some (typ : string) (cls : row_class) :
  TypeToRow !! typ = Some cls -> typ = TypeId cls.
Proof.
  unfold TypeToRow; simpl.
  intros [[Htyp _] | [_ Hempty]]%lookup_insert_Some.
  - destruct cls; symmetry; exact Htyp.
  - rewrite lookup_empty in Hempty; discriminate.
Qed.

Lemma TypeToRow_lookup_None (typ : string) :
  TypeToRow !! typ = None <-> typ ≠ "ev".
Proof.
  unfold TypeToRow; simpl. rewrite lookup_insert_None, lookup_empty.
  split; [intros [_ Hne] Heq; apply Hne; symmetry; exact Heq |].
  intros Hne; split; [reflexivity | intros Heq; apply Hne; symmetry; exact Heq].
Qed.

(** ** Construction *)

Lemma alloc_lookup_old (o : instance) (h : heap) (l : loc) (o' : instance) :
  h !! l = Some o' -> (alloc o h).2 !! l = Some o'.
Proof. intros Hl; simpl. apply lookup_app_l_Some, Hl. Qed.

Lemma alloc_lookup_new (o : instance) (h : heap) :
  (alloc o h).2 !! length h = Some o.
Proof. simpl. apply list_lookup_middle; reflexivity. Qed.

Lemma init_arity (cls : row_class) (args : list value) (h : heap) :
  length args ≠ length (attribs cls) -> init cls args h = (Raise TypeError, h).
Proof.
  destruct cls; simpl.
  destruct args as [|a1 [|a2 [|a3 [|a4 [|a5 [|a6 args]]]]]]; simpl;
    intros Hlen; try reflexivity.
  contradiction Hlen; reflexivity.
Qed.

Lemma init_astuple (cls : row_class) (row : instance) (h : heap) :
  class_of row = Some cls -> init cls (astuple row) h = alloc row h.
Proof. destruct row, cls; simpl; intros Hcls; [discriminate | reflexivity]. Qed.

Lemma parse_row_registered (cls : row_class) (data : list value) (h : heap) :
  parse_row (TypeId cls, data) h =
  (data' <~ from_data cls data;; alloc (EventsStreamRow (VStr (TypeId cls)) data')) h.
Proof. unfold parse_row. rewrite TypeToRow_registered. reflexivity. Qed.

Lemma parse_row_astuple (cls : row_class) (row : instance) (h : heap) :
  class_of row = Some cls ->
  parse_row (TypeId cls, astuple row) h =
  (Ok (VRef (S (length h))),
   h ++ [row; EventsStreamRow (VStr (TypeId cls)) (VRef (length h))]).
Proof.
  intros Hcls. rewrite parse_row_registered. unfold bind, from_data.
  rewrite (init_astuple _ _ _ Hcls); simpl.
  unfold alloc.
  rewrite length_app, <- (assoc_L (++)); simpl.
  rewrite Nat.add_1_r. reflexivity.
Qed.

(** ** Effects of the operations on the heap *)

Lemma from_data_lookup_old cls data (h : heap) (l : loc) (o : instance) :
  h !! l = Some o -> (from_data cls data h).2 !! l = Some o.
Proof.
  intros Hl. unfold from_data, init. destruct cls.
  destruct data as [|a1 [|a2 [|a3 [|a4 [|a5 [|a6 data]]]]]];
    try exact Hl.
  apply alloc_lookup_old, Hl.
Qed.

Lemma parse_row_lookup_old row (h : heap) (l : loc) (o : instance) :
  h !! l = Some o -> (parse_row row h).2 !! l = Some o.
Proof.
  intros Hl. destruct row as [typ data]. unfold parse_row.
  destruct (TypeToRow !! typ) as [Row|]; [| exact Hl].
  unfold bind.
  pose proof (from_data_lookup_old Row data h l o Hl) as Hfd.
  destruct (from_data Row data h) as [[data'|e] h']; simpl in Hfd.
  - apply alloc_lookup_old, Hfd.
  - exact Hfd.
Qed.

Lemma setattr_frozen (l : loc) (name : string) (v : value) (h : heap) (o : instance) :
  h !! l = Some o -> setattr l name v h = (Raise FrozenInstanceError, h).
Proof.
  intros Hl. unfold setattr. rewrite Hl. destruct o; reflexivity.
Qed.

Lemma setattr_heap (l : loc) (name : string) (v : value) (h : heap) :
  (setattr l name v h).2 = h.
Proof.
  unfold setattr. destruct (h !! l) as [o|] eqn:Hl; [| reflexivity].
  destruct o; reflexivity.
Qed.

Lemma exec_lookup_old (op : operation) (h : heap) (l : loc) (o : instance) :
  h !! l = Some o -> (exec op h).2 !! l = Some o.
Proof.
  intros Hl. destruct op; simpl.
  - apply from_data_lookup_old, Hl.
  - apply lookup_app_l_Some, Hl.
  - apply parse_row_lookup_old, Hl.
  - rewrite setattr_heap. exact Hl.
Qed.

(** ** The row codec *)

(** C1 (round trip): for every row of a registered row class, with any
    values in its fields, [parse_row] applied to the pair of its tag and its
    field values in declaration order returns a new [EventsStreamRow] with
    that tag, whose [data] is a new row with the class and the field values
    of the original one, hence equal to it. *)
Theorem parse_row_encode
    (row : instance) (wire : string * list value) (h : heap) :
  encode row = Some wire ->
  ∃ (envelope payload : loc) (h' : heap),
    parse_row wire h = (Ok (VRef envelope), h') ∧
    h' !! envelope = Some (EventsStreamRow (VStr wire.1) (VRef payload)) ∧
    h' !! payload = Some row.
Proof.
  unfold encode. destruct (class_of row) as [cls|] eqn:Hcls; simpl; [| discriminate].
  intros [= <-]. simpl.
  exists (S (length h)), (length h), (h ++ [row; EventsStreamRow (VStr (TypeId cls)) (VRef (length h))]).
  split; [apply parse_row_astuple, Hcls |].
  split.
  - rewrite lookup_app_r by lia.
    replace (S (length h) - length h)%nat with 1%nat by lia. reflexivity.
  - apply list_lookup_middle; reflexivity.
Qed.

Lemma parse_row_encode_witness :
  let row :=
    EventsStreamEventRow (VStr "$a") (VStr "!r1") (VStr "m.text") VNone VNone in
  let wire := ("ev", [VStr "$a"; VStr "!r1"; VStr "m.text"; VNone; VNone]) in
  encode row = Some wire ∧
  ∃ (envelope payload : loc) (h' : heap),
    parse_row wire [] = (Ok (VRef envelope), h') ∧
    h' !! envelope = Some (EventsStreamRow (VStr "ev") (VRef payload)) ∧
    h' !! payload = Some row.
Proof.
  split; [reflexivity |].
  apply (parse_row_encode
           (EventsStreamEventRow (VStr "$a") (VStr "!r1") (VStr "m.text") VNone VNone)
           ("ev", [VStr "$a"; VStr "!r1"; VStr "m.text"; VNone; VNone]) []).
  reflexivity.
Defined.

(** C3 (unknown tag): for every tag that is not a key of [TypeToRow] and
    every data, [parse_row] raises [KeyError] on the tag — the
    specification's [UnknownRowType] — and returns nothing; no instance has
    been constructed. *)
Theorem parse_row_unknown_type (typ : string) (data : list value) (h : heap) :
  TypeToRow !! typ = None ->
  parse_row (typ, data) h = (Raise (KeyError typ), h).
Proof. intros Hnone. unfold parse_row. rewrite Hnone. reflexivity. Qed.

Lemma parse_row_unknown_type_witness :
  TypeToRow !! "nonexistent_tag" = None ∧
  parse_row ("nonexistent_tag", [VStr "$a"; VNone]) [] =
  (Raise (KeyError "nonexistent_tag"), []).
Proof.
  split; [reflexivity |].
  apply (parse_row_unknown_type "nonexistent_tag" [VStr "$a"; VNone] []).
  reflexivity.
Defined.

(** C4 (arity): for every row class and every data whose length differs
    from the number of attributes the class declares, [from_data] raises
    [TypeError] — the specification's [MalformedRow] — and so does
    [parse_row] on the class's tag with that data; no instance has been
    constructed. *)
Theorem from_data_arity (cls : row_class) (data : list value) (h : heap) :
  length data ≠ length (attribs cls) ->
  from_data cls data h = (Raise TypeError, h) ∧
  parse_row (TypeId cls, data) h = (Raise TypeError, h).
Proof.
  intros Hlen. split; [apply init_arity, Hlen |].
  rewrite parse_row_registered. unfold bind, from_data.
  rewrite (init_arity _ _ _ Hlen). reflexivity.
Qed.

Lemma from_data_arity_witness :
  length [VStr "$a"] ≠ length (attribs EventsStreamEventRowClass) ∧
  from_data EventsStreamEventRowClass [VStr "$a"] [] = (Raise TypeError, []) ∧
  parse_row ("ev", [VStr "$a"]) [] = (Raise TypeError, []).
Proof.
  split; [simpl; lia |].
  apply (from_data_arity EventsStreamEventRowClass [VStr "$a"] []).
  simpl; lia.
Defined.

(** ** Immutability *)

(** C9 (immutability): an instance of [EventsStreamRow] or of
    [EventsStreamEventRow], once constructed, keeps its class and the values
    of all its attributes through every sequence of operations —
    [from_data], the [EventsStreamRow] constructor, [parse_row], and
    attribute assignment — and an assignment to any of its attributes
    raises [FrozenInstanceError]. *)
Theorem rows_immutable
    (ops : list operation) (h : heap) (l : loc) (o : instance) :
  h !! l = Some o ->
  exec_all ops h !! l = Some o ∧
  ∀ (name : string) (v : value),
    setattr l name v (exec_all ops h) =
    (Raise FrozenInstanceError, exec_all ops h).
Proof.
  intros Hl.
  assert (Hkeep : exec_all ops h !! l = Some o).
  { revert h Hl. induction ops as [|op ops IH]; intros h Hl; [exact Hl |].
    apply IH, exec_lookup_old, Hl. }
  split; [exact Hkeep |].
  intros name v. apply (setattr_frozen _ _ _ _ _ Hkeep).
Qed.

Lemma rows_immutable_witness :
  let row :=
    EventsStreamEventRow (VStr "$a") (VStr "!r1") (VStr "m.text") VNone VNone in
  let h := [row; EventsStreamRow (VStr "ev") (VRef 0%nat)] in
  let ops :=
    [op_setattr 0%nat "event_id" (VStr "$x");
     op_parse_row ("ev", [VStr "$b"; VStr "!r1"; VStr "m.redaction"; VNone; VStr "$a"]);
     op_setattr 1%nat "data" (VRef 2%nat);
     op_from_data EventsStreamEventRowClass [VNone];
     op_EventsStreamRow (VStr "ev") (VRef 0%nat)] in
  h !! 0%nat = Some row ∧
  exec_all ops h !! 0%nat = Some row ∧
  ∀ (name : string) (v : value),
    setattr 0%nat name v (exec_all ops h) =
    (Raise FrozenInstanceError, exec_all ops h).
Proof.
  split; [reflexivity |].
  apply (rows_immutable
    [op_setattr 0%nat "event_id" (VStr "$x");
     op_parse_row ("ev", [VStr "$b"; VStr "!r1"; VStr "m.redaction"; VNone; VStr "$a"]);
     op_setattr 1%nat "data" (VRef 2%nat);
     op_from_data EventsStreamEventRowClass [VNone];
     op_EventsStreamRow (VStr "ev") (VRef 0%nat)]
    [EventsStreamEventRow (VStr "$a") (VStr "!r1") (VStr "m.text") VNone VNone;
     EventsStreamRow (VStr "ev") (VRef 0%nat)]
    0%nat).
  reflexivity.
Defined.

(** ** The feed over any datastore *)

Section Feed.

Variable store : datastore.

Lemma run_update_function (from_token current_token : Z) (limit : option nat) :
  run store (update_function from_token current_token limit) =
  (match store (get_all_new_forward_event_rows from_token current_token limit) with
   | Ok event_rows => Ok (event_updates event_rows)
   | Raise e => Raise e
   end,
   [get_all_new_forward_event_rows from_token current_token limit]).
Proof.
  simpl.
  destruct (store (get_all_new_forward_event_rows from_token current_token limit));
    reflexivity.
Qed.

End Feed.

Lemma event_update_cons (position : value) (data : list value) :
  event_update (position :: data) =
  Ok (VTuple [position; VStr "ev"; VTuple data]).
Proof. reflexivity. Qed.

(** A raw row without a first element stops the generator with the
    [IndexError] of [row[0]]; what the datastore raises ends the call. *)
Lemma event_update_nil : event_update [] = Raise IndexError.
Proof. reflexivity. Qed.

Lemma update_function_store_raises
    (store : datastore) (from_token current_token : Z) (limit : option nat)
    (e : exn) :
  store (get_all_new_forward_event_rows from_token current_token limit) = Raise e ->
  run store (update_function from_token current_token limit) =
  (Raise e, [get_all_new_forward_event_rows from_token current_token limit]).
Proof. intros Hstore. rewrite run_update_function, Hstore. reflexivity. Qed.

Example update_function_storage_error :
  run (fun _ => Raise (StorageError "connection lost")) (update_function 5 11 None) =
  (Raise (StorageError "connection lost"),
   [get_all_new_forward_event_rows 5 11 None]).
Proof. reflexivity. Qed.

Lemma list_of_event_updates (rows : list (value * list value)) :
  list_of (event_updates (row_of <$> rows)) = Ok (update_of <$> rows).
Proof.
  induction rows as [|[position data] rows IH]; [reflexivity |].
  unfold event_updates in *. rewrite !fmap_cons.
  cbn [list_of]. rewrite IH. reflexivity.
Qed.

(** C10 (row mapping): for every sequence of raw rows the datastore query
    returns — each a tuple with the position first —, [update_function]
    issues that one query and returns a generator that yields exactly one
    update per raw row, in the same order: the tuple of the row's first
    element, the constant ["ev"] and the remaining elements of the row. *)
Theorem update_function_maps_rows
    (store : datastore) (from_token current_token : Z) (limit : option nat)
    (rows : list (value * list value)) :
  store (get_all_new_forward_event_rows from_token current_token limit) =
    Ok (row_of <$> rows) ->
  ∃ gen : list (result value),
    run store (update_function from_token current_token limit) =
      (Ok gen, [get_all_new_forward_event_rows from_token current_token limit]) ∧
    list_of gen = Ok (update_of <$> rows) ∧
    length (update_of <$> rows) = length (row_of <$> rows) ∧
    ∀ (i : nat) (position : value) (data : list value),
      (row_of <$> rows) !! i = Some (position :: data) ->
      (update_of <$> rows) !! i =
      Some (VTuple [position; VStr "ev"; VTuple data]).
Proof.
  intros Hstore. exists (event_updates (row_of <$> rows)).
  rewrite run_update_function, Hstore.
  split; [reflexivity |].
  split; [apply list_of_event_updates |].
  split; [rewrite !length_fmap; reflexivity |].
  intros i position data. rewrite !list_lookup_fmap.
  destruct (rows !! i) as [[p d]|]; simpl; [| discriminate].
  unfold row_of, update_of; simpl. intros [= -> ->]. reflexivity.
Qed.

Lemma update_function_maps_rows_witness :
  let rows :=
    [(VInt 10, [VStr "$a"; VStr "!r1"; VStr "m.text"; VNone; VNone]);
     (VInt 11, [VStr "$b"; VStr "!r1"; VStr "m.redaction"; VNone; VStr "$a"])] in
  authority scenario_log (get_all_new_forward_event_rows 5 11 None) =
    Ok (row_of <$> rows) ∧
  ∃ gen : list (result value),
    run (authority scenario_log) (update_function 5 11 None) =
      (Ok gen, [get_all_new_forward_event_rows 5 11 None]) ∧
    list_of gen = Ok (update_of <$> rows) ∧
    length (update_of <$> rows) = length (row_of <$> rows) ∧
    ∀ (i : nat) (position : value) (data : list value),
      (row_of <$> rows) !! i = Some (position :: data) ->
      (update_of <$> rows) !! i =
      Some (VTuple [position; VStr "ev"; VTuple data]).
Proof.
  split; [reflexivity |].
  apply (update_function_maps_rows (authority scenario_log) 5 11 None
    [(VInt 10, [VStr "$a"; VStr "!r1"; VStr "m.text"; VNone; VNone]);
     (VInt 11, [VStr "$b"; VStr "!r1"; VStr "m.redaction"; VNone; VStr "$a"])]).
  reflexivity.
Defined.

(** C2, as stated, fails: with [from_token = 11 > to_token = 5],
    [update_function] is not rejected before the datastore is queried; it
    issues the query [(11, 5, None)] to the authority of the scenario and
    returns the (empty) generator made of the answer. *)
Lemma update_function_inverted_range_queries :
  run (authority scenario_log) (update_function 11 5 None) =
    (Ok [], [get_all_new_forward_event_rows 11 5 None]) ∧
  ¬ ∃ e : exn,
      run (authority scenario_log) (update_function 11 5 None) = (Raise e, []).
Proof.
  split; [reflexivity |].
  intros [e He]. vm_compute in He. discriminate He.
Qed.

(** C2 (amended): [update_function] makes no check of the range.  For every
    pair of tokens with [from_token > to_token], as for any other pair, it
    issues exactly one query to the datastore, with the tokens and the limit
    as given, and returns the generator over the rows of the answer; it
    raises only what the datastore raises. *)
Theorem update_function_no_range_check
    (store : datastore) (from_token to_token : Z) (limit : option nat) :
  from_token > to_token ->
  run store (update_function from_token to_token limit) =
  (match store (get_all_new_forward_event_rows from_token to_token limit) with
   | Ok event_rows => Ok (event_updates event_rows)
   | Raise e => Raise e
   end,
   [get_all_new_forward_event_rows from_token to_token limit]).
Proof. intros _. apply run_update_function. Qed.

Lemma update_function_no_range_check_witness :
  11 > 5 ∧
  run (authority scenario_log) (update_function 11 5 None) =
  (match authority scenario_log (get_all_new_forward_event_rows 11 5 None) with
   | Ok event_rows => Ok (event_updates event_rows)
   | Raise e => Raise e
   end,
   [get_all_new_forward_event_rows 11 5 None]).
Proof.
  split; [lia |].
  apply (update_function_no_range_check (authority scenario_log) 11 5 None).
  lia.
Defined.

(** C8 (determinism): for every pair of tokens [from_token ≤ to_token], when
    the datastore answers the query of the range with the same raw rows at
    two calls — no write between them —, the two calls of [update_function]
    issue the same query and return equal generators: the same updates, in
    the same order. *)
Theorem update_function_deterministic
    (store store' : datastore) (from_token to_token : Z) (limit : option nat) :
  from_token ≤ to_token ->
  store (get_all_new_forward_event_rows from_token to_token limit) =
  store' (get_all_new_forward_event_rows from_token to_token limit) ->
  run store (update_function from_token to_token limit) =
  run store' (update_function from_token to_token limit).
Proof.
  intros _ Hsame. rewrite !run_update_function, Hsame. reflexivity.
Qed.

Lemma update_function_deterministic_witness :
  let later :=
    scenario_log ++
    [ {| position := 12; event_id := "$c"; room_id := "!r2"; kind := "m.text";
         state_key := None; redacts := None |} ] in
  5 ≤ 11 ∧
  authority scenario_log (get_all_new_forward_event_rows 5 11 (Some 100%nat)) =
  authority later (get_all_new_forward_event_rows 5 11 (Some 100%nat)) ∧
  run (authority scenario_log) (update_function 5 11 (Some 100%nat)) =
  run (authority later) (update_function 5 11 (Some 100%nat)).
Proof.
  split; [lia |]. split; [reflexivity |].
  apply (update_function_deterministic
           (authority scenario_log)
           (authority
              (scenario_log ++
               [ {| position := 12; event_id := "$c"; room_id := "!r2";
                    kind := "m.text"; state_key := None; redacts := None |} ]))
           5 11 (Some 100%nat)).
  - lia.
  - reflexivity.
Defined.

(** ** The feed over the authority *)

Lemma in_range_spec (from_token to_token : Z) (r : change_record) :
  Is_true (in_range from_token to_token r) <->
  from_token < position r ≤ to_token.
Proof.
  unfold in_range. rewrite andb_True, !bool_decide_spec. reflexivity.
Qed.

Lemma insert_by_position_Forall (P : change_record -> Prop) r l :
  P r -> Forall P l -> Forall P (insert_by_position r l).
Proof.
  intros Hr Hl. induction Hl as [|r' l' Hr' Hl' IH]; simpl.
  - constructor; [exact Hr | constructor].
  - destruct (bool_decide (position r ≤ position r')).
    + constructor; [exact Hr |]. constructor; assumption.
    + constructor; assumption.
Qed.

Lemma sort_by_position_Forall (P : change_record -> Prop) l :
  Forall P l -> Forall P (sort_by_position l).
Proof.
  unfold sort_by_position. induction 1 as [|r l Hr Hl IH]; simpl.
  - constructor.
  - apply insert_by_position_Forall; assumption.
Qed.

Lemma filter_in_range_Forall (from_token to_token : Z) (l : list change_record) :
  Forall (fun r => from_token < position r ≤ to_token)
    (filter (fun r => Is_true (in_range from_token to_token r)) l).
Proof.
  apply Forall_forall. intros r [Hr _]%list_elem_of_filter.
  apply in_range_spec, Hr.
Qed.

Lemma insert_by_position_app_l r l1 l2 :
  Forall (fun r' => position r ≤ position r') l2 ->
  insert_by_position r (l1 ++ l2) = insert_by_position r l1 ++ l2.
Proof.
  intros Hl2. induction l1 as [|r1 l1 IH]; simpl.
  - destruct Hl2 as [|r2 l2 Hr2 Hl2]; simpl; [reflexivity |].
    rewrite bool_decide_eq_true_2 by exact Hr2. reflexivity.
  - destruct (bool_decide (position r ≤ position r1)); [reflexivity |].
    rewrite IH. reflexivity.
Qed.

Lemma insert_by_position_app_r r l1 l2 :
  Forall (fun r' => position r' < position r) l1 ->
  insert_by_position r (l1 ++ l2) = l1 ++ insert_by_position r l2.
Proof.
  induction 1 as [|r1 l1 Hr1 Hl1 IH]; simpl; [reflexivity |].
  rewrite bool_decide_eq_false_2 by lia. rewrite IH. reflexivity.
Qed.

Lemma sort_filter_split (log : list change_record) (a b c : Z) :
  a ≤ b -> b ≤ c ->
  sort_by_position (filter (fun r => Is_true (in_range a c r)) log) =
  sort_by_position (filter (fun r => Is_true (in_range a b r)) log) ++
  sort_by_position (filter (fun r => Is_true (in_range b c r)) log).
Proof.
  intros Hab Hbc. induction log as [|r log IH]; [reflexivity |].
  rewrite !filter_cons.
  destruct (decide (Is_true (in_range a c r))) as [Hac|Hac];
    destruct (decide (Is_true (in_range a b r))) as [Hab'|Hab'];
    destruct (decide (Is_true (in_range b c r))) as [Hbc'|Hbc'];
    rewrite ?in_range_spec in Hac, Hab', Hbc'; try lia.
  - change (sort_by_position (r :: ?l)) with
      (insert_by_position r (sort_by_position l)).
    rewrite IH. apply insert_by_position_app_l.
    apply sort_by_position_Forall.
    eapply Forall_impl; [apply filter_in_range_Forall |].
    simpl; intros r' Hr'; lia.
  - change (sort_by_position (r :: ?l)) with
      (insert_by_position r (sort_by_position l)).
    rewrite IH. apply insert_by_position_app_r.
    apply sort_by_position_Forall.
    eapply Forall_impl; [apply filter_in_range_Forall |].
    simpl; intros r' Hr'; lia.
  - exact IH.
Qed.

Lemma filter_in_range_empty (log : list change_record) (t : Z) :
  filter (fun r => Is_true (in_range t t r)) log = [].
Proof.
  induction log as [|r log IH]; [reflexivity |].
  rewrite filter_cons, IH.
  destruct (decide (Is_true (in_range t t r))) as [Hr|Hr]; [| reflexivity].
  apply in_range_spec in Hr. lia.
Qed.

Lemma poll_changes_query (log : list change_record)
    (from_token to_token : Z) (limit : option nat) :
  poll_changes log from_token to_token limit =
  Ok ((fun r => update_of (VInt (position r), columns r)) <$>
        query_changes log from_token to_token limit).
Proof.
  unfold poll_changes. rewrite run_update_function. cbn [fst authority].
  cbn [mbind result_bind].
  replace (raw_tuple <$> query_changes log from_token to_token limit)
    with (row_of <$> ((fun r => (VInt (position r), columns r)) <$>
                        query_changes log from_token to_token limit)).
  - rewrite list_of_event_updates, <- list_fmap_compose. reflexivity.
  - rewrite <- list_fmap_compose. reflexivity.
Qed.

(** C5, as stated, fails: in the scenario, the updates that
    [poll_changes 5 11] yields are triples of the position, the tag and the
    tuple of the remaining columns; they are not pairs of a position and an
    [EventsStreamRow] instance, and no instance is constructed. *)
Lemma poll_changes_scenario_not_envelopes :
  poll_changes scenario_log 5 11 None =
    Ok [VTuple [VInt 10; VStr "ev";
                VTuple [VStr "$a"; VStr "!r1"; VStr "m.text"; VNone; VNone]];
        VTuple [VInt 11; VStr "ev";
                VTuple [VStr "$b"; VStr "!r1"; VStr "m.redaction"; VNone;
                        VStr "$a"]]] ∧
  ¬ ∃ envelope1 envelope2 : loc,
      poll_changes scenario_log 5 11 None =
      Ok [VTuple [VInt 10; VRef envelope1]; VTuple [VInt 11; VRef envelope2]].
Proof.
  split; [reflexivity |].
  intros (envelope1 & envelope2 & Heq). vm_compute in Heq. discriminate Heq.
Qed.

(** C5 (amended): in the scenario, [poll_changes 5 11] yields exactly two
    updates, in this order: [(10, "ev", ("$a", "!r1", "m.text", None, None))]
    and [(11, "ev", ("$b", "!r1", "m.redaction", None, "$a"))]; and
    [parse_row], applied on any heap to the tag and the data of each,
    constructs the row with these five field values and the
    [EventsStreamRow] with tag ["ev"] that refers to it. *)
Theorem poll_changes_scenario :
  let data_a := [VStr "$a"; VStr "!r1"; VStr "m.text"; VNone; VNone] in
  let data_b := [VStr "$b"; VStr "!r1"; VStr "m.redaction"; VNone; VStr "$a"] in
  poll_changes scenario_log 5 11 None =
    Ok [VTuple [VInt 10; VStr "ev"; VTuple data_a];
        VTuple [VInt 11; VStr "ev"; VTuple data_b]] ∧
  ∀ h : heap,
    parse_row ("ev", data_a) h =
      (Ok (VRef (S (length h))),
       h ++ [EventsStreamEventRow
               (VStr "$a") (VStr "!r1") (VStr "m.text") VNone VNone;
             EventsStreamRow (VStr "ev") (VRef (length h))]) ∧
    parse_row ("ev", data_b) h =
      (Ok (VRef (S (length h))),
       h ++ [EventsStreamEventRow
               (VStr "$b") (VStr "!r1") (VStr "m.redaction") VNone (VStr "$a");
             EventsStreamRow (VStr "ev") (VRef (length h))]).
Proof.
  split; [reflexivity |].
  intros h. split.
  - apply (parse_row_astuple EventsStreamEventRowClass
             (EventsStreamEventRow
                (VStr "$a") (VStr "!r1") (VStr "m.text") VNone VNone)).
    reflexivity.
  - apply (parse_row_astuple EventsStreamEventRowClass
             (EventsStreamEventRow
                (VStr "$b") (VStr "!r1") (VStr "m.redaction") VNone (VStr "$a"))).
    reflexivity.
Qed.

(** C6 (empty range): for every log of the authority, every token [t] and
    every limit, [poll_changes t t limit] yields the empty sequence. *)
Theorem poll_changes_empty_range
    (log : list change_record) (t : Z) (limit : option nat) :
  poll_changes log t t limit = Ok [].
Proof.
  rewrite poll_changes_query. unfold query_changes.
  rewrite filter_in_range_empty. destruct limit as [n|]; simpl.
  - rewrite take_nil. reflexivity.
  - reflexivity.
Qed.

(** C7 (range monotonicity): for every log of the authority, unchanged
    between the calls, and all tokens [a ≤ b ≤ c], the sequence that
    [poll_changes a c] yields is the sequence of [poll_changes a b] followed
    by the sequence of [poll_changes b c]. *)
Theorem poll_changes_split (log : list change_record) (a b c : Z) :
  a ≤ b -> b ≤ c ->
  ∃ ab bc : list value,
    poll_changes log a b None = Ok ab ∧
    poll_changes log b c None = Ok bc ∧
    poll_changes log a c None = Ok (ab ++ bc).
Proof.
  intros Hab Hbc. rewrite !poll_changes_query.
  eexists _, _. split; [reflexivity |]. split; [reflexivity |].
  unfold query_changes, cap.
  rewrite (sort_filter_split log a b c Hab Hbc), fmap_app. reflexivity.
Qed.

Lemma poll_changes_split_witness :
  let log :=
    [ {| position := 11; event_id := "$b"; room_id := "!r1";
         kind := "m.redaction"; state_key := None; redacts := Some "$a" |};
      {| position := 10; event_id := "$a"; room_id := "!r1"; kind := "m.text";
         state_key := None; redacts := None |};
      {| position := 11; event_id := "$c"; room_id := "!r2"; kind := "m.room.name";
         state_key := Some "topic"; redacts := None |};
      {| position := 7; event_id := "$d"; room_id := "!r2"; kind := "m.text";
         state_key := None; redacts := None |} ] in
  5 ≤ 10 ∧ 10 ≤ 11 ∧
  ∃ ab bc : list value,
    poll_changes log 5 10 None = Ok ab ∧
    poll_changes log 10 11 None = Ok bc ∧
    poll_changes log 5 11 None = Ok (ab ++ bc).
Proof.
  split; [lia |]. split; [lia |].
  apply (poll_changes_split
    [ {| position := 11; event_id := "$b"; room_id := "!r1";
         kind := "m.redaction"; state_key := None; redacts := Some "$a" |};
      {| position := 10; event_id := "$a"; room_id := "!r1"; kind := "m.text";
         state_key := None; redacts := None |};
      {| position := 11; event_id := "$c"; room_id := "!r2"; kind := "m.room.name";
         state_key := Some "topic"; redacts := None |};
      {| position := 7; event_id := "$d"; room_id := "!r2"; kind := "m.text";
         state_key := None; redacts := None |} ] 5 10 11); lia.
Defined.

(** * Further properties of the module *)

(** ** What a successful construction tells *)

Lemma astuple_length (cls : row_class) (row : instance) :
  class_of row = Some cls -> length (astuple row) = length (attribs cls).
Proof. destruct row, cls; simpl; intros Hcls; [discriminate | reflexivity]. Qed.

Lemma init_Ok_inv (cls : row_class) (args : list value) (h h' : heap) (v : value) :
  init cls args h = (Ok v, h') ->
  ∃ row : instance,
    class_of row = Some cls ∧ astuple row = args ∧
    v = VRef (length h) ∧ h' = h ++ [row].
Proof.
  destruct cls.
  destruct args as [|a1 [|a2 [|a3 [|a4 [|a5 [|a6 args]]]]]]; simpl;
    try (unfold raise; intros Hinit; discriminate Hinit).
  unfold alloc. intros [= <- <-].
  exists (EventsStreamEventRow a1 a2 a3 a4 a5). repeat split; reflexivity.
Qed.

Lemma init_Raise_inv (cls : row_class) (args : list value) (h h' : heap) (e : exn) :
  init cls args h = (Raise e, h') -> e = TypeError ∧ h' = h.
Proof.
  destruct cls.
  destruct args as [|a1 [|a2 [|a3 [|a4 [|a5 [|a6 args]]]]]]; simpl;
    unfold raise, alloc; intros Hinit;
    try discriminate Hinit; injection Hinit as <- <-; split; reflexivity.
Qed.

Lemma parse_row_Ok_inv
    (typ : string) (data : list value) (h h' : heap) (v : value) :
  parse_row (typ, data) h = (Ok v, h') ->
  ∃ (cls : row_class) (row : instance),
    typ = TypeId cls ∧ class_of row = Some cls ∧ astuple row = data ∧
    v = VRef (S (length h)) ∧
    h' = h ++ [row; EventsStreamRow (VStr typ) (VRef (length h))].
Proof.
  unfold parse_row.
  destruct (TypeToRow !! typ) as [cls|] eqn:Hreg;
    [| unfold raise; intros Hparse; discriminate Hparse].
  unfold bind, from_data.
  destruct (init cls data h) as [[data'|e] h1] eqn:Hinit;
    [| intros Hparse; discriminate Hparse].
  destruct (init_Ok_inv _ _ _ _ _ Hinit) as (row & Hcls & Htuple & -> & ->).
  unfold alloc. intros [= <- <-].
  exists cls, row. split; [apply TypeToRow_lookup_Some, Hreg |].
  repeat split; try assumption.
  - rewrite length_app, Nat.add_1_r. reflexivity.
  - rewrite <- (assoc_L (++)). reflexivity.
Qed.

Lemma parse_row_Raise_inv
    (row : string * list value) (h h' : heap) (e : exn) :
  parse_row row h = (Raise e, h') -> h' = h.
Proof.
  destruct row as [typ data]. unfold parse_row.
  destruct (TypeToRow !! typ) as [cls|];
    [| unfold raise; intros [= _ <-]; reflexivity].
  unfold bind, from_data.
  destruct (init cls data h) as [[data'|e'] h1] eqn:Hinit.
  - unfold alloc. intros Hparse; discriminate Hparse.
  - intros [= _ <-]. apply (init_Raise_inv _ _ _ _ _ Hinit).
Qed.

(** X1: [parse_row] returns a value exactly when the tag is ["ev"] and the
    data has five elements; with any other tag or any other length it
    raises. *)
Theorem parse_row_Ok_iff (typ : string) (data : list value) (h : heap) :
  (∃ (v : value) (h' : heap), parse_row (typ, data) h = (Ok v, h')) <->
  typ = "ev" ∧ length data = 5%nat.
Proof.
  split.
  - intros (v & h' & Hparse).
    destruct (parse_row_Ok_inv _ _ _ _ _ Hparse)
      as (cls & row & -> & Hcls & <- & _ & _).
    split; [destruct cls; reflexivity |].
    rewrite (astuple_length cls row Hcls). destruct cls; reflexivity.
  - intros [-> Hlen].
    destruct data as [|a1 [|a2 [|a3 [|a4 [|a5 [|a6 data]]]]]];
      simpl in Hlen; try lia.
    eexists _, _. reflexivity.
Qed.

(** X2: when [from_data] returns, it has constructed exactly one instance,
    at the next free address, which is of the class it was called on and
    whose attribute values, in declaration order, are the elements of the
    data, unchanged; the instances that existed are as they were. *)
Theorem from_data_Ok_astuple
    (cls : row_class) (data : list value) (h h' : heap) (v : value) :
  from_data cls data h = (Ok v, h') ->
  ∃ row : instance,
    v = VRef (length h) ∧ h' = h ++ [row] ∧
    class_of row = Some cls ∧ astuple row = data.
Proof.
  unfold from_data. intros Hinit.
  destruct (init_Ok_inv _ _ _ _ _ Hinit) as (row & Hcls & Htuple & -> & ->).
  exists row. repeat split; assumption.
Qed.

Lemma from_data_Ok_astuple_witness :
  let data := [VStr "$a"; VStr "!r1"; VStr "m.room.name"; VStr "topic"; VNone] in
  let old := EventsStreamRow (VStr "ev") VNone in
  from_data EventsStreamEventRowClass data [old] =
    (Ok (VRef 1%nat),
     [old; EventsStreamEventRow
             (VStr "$a") (VStr "!r1") (VStr "m.room.name") (VStr "topic") VNone]) ∧
  ∃ row : instance,
    VRef 1%nat = VRef (length [old]) ∧
    [old; EventsStreamEventRow
            (VStr "$a") (VStr "!r1") (VStr "m.room.name") (VStr "topic") VNone] =
      [old] ++ [row] ∧
    class_of row = Some EventsStreamEventRowClass ∧ astuple row = data.
Proof.
  split; [reflexivity |].
  apply (from_data_Ok_astuple EventsStreamEventRowClass
           [VStr "$a"; VStr "!r1"; VStr "m.room.name"; VStr "topic"; VNone]
           [EventsStreamRow (VStr "ev") VNone]).
  reflexivity.
Defined.

(** X3: when [parse_row] returns, the value is a reference to an
    [EventsStreamRow] whose [type] is the tag of the wire row and whose
    [data] refers to a row of the class registered under that tag; the
    attribute values of that row, in declaration order, are the elements of
    the wire data: nothing of the wire row is lost or changed. *)
Theorem parse_row_Ok_contents
    (typ : string) (data : list value) (h h' : heap) (v : value) :
  parse_row (typ, data) h = (Ok v, h') ->
  ∃ (envelope payload : loc) (cls : row_class) (row : instance),
    v = VRef envelope ∧
    h' !! envelope = Some (EventsStreamRow (VStr typ) (VRef payload)) ∧
    h' !! payload = Some row ∧
    TypeToRow !! typ = Some cls ∧ class_of row = Some cls ∧
    astuple row = data.
Proof.
  intros Hparse.
  destruct (parse_row_Ok_inv _ _ _ _ _ Hparse)
    as (cls & row & -> & Hcls & Htuple & -> & ->).
  exists (S (length h)), (length h), cls, row.
  split; [reflexivity |]. split.
  { rewrite lookup_app_r by lia.
    replace (S (length h) - length h)%nat with 1%nat by lia. reflexivity. }
  split; [apply list_lookup_middle; reflexivity |].
  split; [apply TypeToRow_registered |]. split; assumption.
Qed.

Lemma parse_row_Ok_contents_witness :
  let data := [VStr "$b"; VStr "!r1"; VStr "m.redaction"; VNone; VStr "$a"] in
  let row :=
    EventsStreamEventRow
      (VStr "$b") (VStr "!r1") (VStr "m.redaction") VNone (VStr "$a") in
  let h' := [row; EventsStreamRow (VStr "ev") (VRef 0%nat)] in
  parse_row ("ev", data) [] = (Ok (VRef 1%nat), h') ∧
  ∃ (envelope payload : loc) (cls : row_class) (row' : instance),
    VRef 1%nat = VRef envelope ∧
    h' !! envelope = Some (EventsStreamRow (VStr "ev") (VRef payload)) ∧
    h' !! payload = Some row' ∧
    TypeToRow !! "ev" = Some cls ∧ class_of row' = Some cls ∧
    astuple row' = data.
Proof.
  split; [reflexivity |].
  apply (parse_row_Ok_contents "ev"
           [VStr "$b"; VStr "!r1"; VStr "m.redaction"; VNone; VStr "$a"] []).
  reflexivity.
Defined.

(** X4: [parse_row] either raises and constructs nothing, or constructs
    exactly two instances: the value it returns refers to the second, the
    row is the first, neither address was in use before, and every instance
    that existed is kept as it was. *)
Theorem parse_row_heap_effect (row : string * list value) (h : heap) :
  match parse_row row h with
  | (Raise e, h') => h' = h
  | (Ok v, h') =>
      ∃ (payload envelope : loc) (new1 new2 : instance),
        v = VRef envelope ∧ payload ≠ envelope ∧
        h !! payload = None ∧ h !! envelope = None ∧
        h' = h ++ [new1; new2] ∧
        h' !! payload = Some new1 ∧ h' !! envelope = Some new2
  end.
Proof.
  destruct (parse_row row h) as [[v|e] h'] eqn:Hparse.
  - destruct row as [typ data].
    destruct (parse_row_Ok_inv _ _ _ _ _ Hparse)
      as (cls & new1 & _ & _ & _ & -> & ->).
    exists (length h), (S (length h)), new1,
      (EventsStreamRow (VStr typ) (VRef (length h))).
    split; [reflexivity |]. split; [lia |].
    split; [apply lookup_ge_None; lia |].
    split; [apply lookup_ge_None; lia |].
    split; [reflexivity |].
    split; [apply list_lookup_middle; reflexivity |].
    rewrite lookup_app_r by lia.
    replace (S (length h) - length h)%nat with 1%nat by lia. reflexivity.
  - apply (parse_row_Raise_inv _ _ _ _ Hparse).
Qed.

(** ** The generator of [update_function] *)

Lemma list_of_event_updates_cons (row : list value) (rows : list (list value)) :
  list_of (event_updates (row :: rows)) =
  match row with
  | [] => Raise IndexError
  | position :: data =>
      match list_of (event_updates rows) with
      | Ok items => Ok (VTuple [position; VStr "ev"; VTuple data] :: items)
      | Raise e => Raise e
      end
  end.
Proof. destruct row as [|position data]; reflexivity. Qed.

Lemma event_update_injective (row1 row2 : list value) (u : value) :
  event_update row1 = Ok u -> event_update row2 = Ok u -> row1 = row2.
Proof.
  destruct row1 as [|p1 d1]; [intros H1; discriminate H1 |].
  destruct row2 as [|p2 d2]; [intros _ H2; discriminate H2 |].
  rewrite !event_update_cons. intros [= <-] [= -> ->]. reflexivity.
Qed.

(** X5: iterating the generator succeeds exactly when no raw row is the
    empty tuple, and then yields as many updates as there are raw rows; the
    only exception the iteration raises is the [IndexError] of [row[0]]. *)
Theorem list_of_event_updates_Ok_iff (rows : list (list value)) :
  ((∃ items : list value, list_of (event_updates rows) = Ok items) <->
   Forall (fun row => row ≠ []) rows) ∧
  (∀ items : list value,
     list_of (event_updates rows) = Ok items -> length items = length rows) ∧
  (∀ e : exn, list_of (event_updates rows) = Raise e -> e = IndexError).
Proof.
  induction rows as [|row rows (IHiff & IHlen & IHexn)].
  - split; [split; [constructor | intros _; exists []; reflexivity] |].
    split; [intros items [= <-]; reflexivity | intros e He; discriminate He].
  - rewrite list_of_event_updates_cons.
    destruct row as [|position data].
    + split; [split |].
      * intros [items Hitems]; discriminate Hitems.
      * intros Hall. inversion Hall as [|? ? Hne _]. contradiction Hne; reflexivity.
      * split; [intros items Hitems; discriminate Hitems |].
        intros e [= <-]; reflexivity.
    + destruct (list_of (event_updates rows)) as [items'|e'].
      * split; [split |].
        -- intros _. constructor; [discriminate |]. apply IHiff. eexists; reflexivity.
        -- intros _. eexists; reflexivity.
        -- split; [| intros e He; discriminate He].
           intros items [= <-]. simpl. rewrite (IHlen items' eq_refl). reflexivity.
      * split; [split |].
        -- intros [items Hitems]; discriminate Hitems.
        -- intros Hall. inversion Hall as [|? ? _ Hrest].
           apply IHiff in Hrest. destruct Hrest as [items Hitems]; discriminate Hitems.
        -- split; [intros items Hitems; discriminate Hitems |].
           intros e [= <-]. apply IHexn. reflexivity.
Qed.

(** X6: the updates determine the raw rows: two sequences of raw rows from
    which the generator yields the same updates are the same sequence; no
    column of a raw row is dropped or merged on the way. *)
Theorem list_of_event_updates_injective
    (rows1 rows2 : list (list value)) (items : list value) :
  list_of (event_updates rows1) = Ok items ->
  list_of (event_updates rows2) = Ok items ->
  rows1 = rows2.
Proof.
  revert rows2 items.
  induction rows1 as [|row1 rows1 IH]; intros rows2 items.
  - intros [= <-]. destruct rows2 as [|row2 rows2]; [reflexivity |].
    rewrite list_of_event_updates_cons. destruct row2 as [|p2 d2];
      [intros H2; discriminate H2 |].
    destruct (list_of (event_updates rows2)); intros H2; discriminate H2.
  - rewrite list_of_event_updates_cons.
    destruct row1 as [|p1 d1]; [intros H1; discriminate H1 |].
    destruct (list_of (event_updates rows1)) as [items1|e1] eqn:Hrows1;
      [| intros H1; discriminate H1].
    intros [= <-]. destruct rows2 as [|row2 rows2]; [intros H2; discriminate H2 |].
    rewrite list_of_event_updates_cons. destruct row2 as [|p2 d2];
      [intros H2; discriminate H2 |].
    destruct (list_of (event_updates rows2)) as [items2|e2] eqn:Hrows2;
      [| intros H2; discriminate H2].
    intros [= -> -> ->]. rewrite (IH rows2 items1 eq_refl Hrows2). reflexivity.
Qed.

Lemma list_of_event_updates_injective_witness :
  let rows :=
    [[VInt 10; VStr "$a"; VStr "!r1"; VStr "m.text"; VNone; VNone];
     [VInt 11; VStr "$b"]] in
  let items :=
    [VTuple [VInt 10; VStr "ev";
             VTuple [VStr "$a"; VStr "!r1"; VStr "m.text"; VNone; VNone]];
     VTuple [VInt 11; VStr "ev"; VTuple [VStr "$b"]]] in
  list_of (event_updates rows) = Ok items ∧ rows = rows.
Proof.
  split; [reflexivity |].
  apply (list_of_event_updates_injective
    [[VInt 10; VStr "$a"; VStr "!r1"; VStr "m.text"; VNone; VNone];
     [VInt 11; VStr "$b"]]
    [[VInt 10; VStr "$a"; VStr "!r1"; VStr "m.text"; VNone; VNone];
     [VInt 11; VStr "$b"]]
    [VTuple [VInt 10; VStr "ev";
             VTuple [VStr "$a"; VStr "!r1"; VStr "m.text"; VNone; VNone]];
     VTuple [VInt 11; VStr "ev"; VTuple [VStr "$b"]]]); reflexivity.
Defined.

(** X7: iterating the generator over a sequence of raw rows followed by
    another yields the updates of the first followed by the updates of the
    second; an exception in the first part ends the iteration there,
    whatever the second part holds. *)
Theorem list_of_event_updates_app (rows1 rows2 : list (list value)) :
  list_of (event_updates (rows1 ++ rows2)) =
  match list_of (event_updates rows1) with
  | Ok items1 =>
      match list_of (event_updates rows2) with
      | Ok items2 => Ok (items1 ++ items2)
      | Raise e => Raise e
      end
  | Raise e => Raise e
  end.
Proof.
  induction rows1 as [|row1 rows1 IH].
  - simpl. destruct (list_of (event_updates rows2)); reflexivity.
  - rewrite <- app_comm_cons, !list_of_event_updates_cons.
    destruct row1 as [|p1 d1]; [reflexivity |].
    rewrite IH.
    destruct (list_of (event_updates rows1)) as [items1|e1]; [| reflexivity].
    destruct (list_of (event_updates rows2)) as [items2|e2]; reflexivity.
Qed.

Lemma update_function_Raise_iff
    (store : datastore) (from_token current_token : Z) (limit : option nat)
    (e : exn) :
  (run store (update_function from_token current_token limit)).1 = Raise e <->
  store (get_all_new_forward_event_rows from_token current_token limit) = Raise e.
Proof.
  rewrite run_update_function. cbn [fst].
  destruct (store (get_all_new_forward_event_rows from_token current_token limit))
    as [rows|e'].
  - split; intros Habs; discriminate Habs.
  - split; intros [= ->]; reflexivity.
Qed.

Lemma list_of_event_updates_empty_row (rows : list (list value)) :
  [] ∈ rows -> list_of (event_updates rows) = Raise IndexError.
Proof.
  induction rows as [|row rows IH]; intros Hin.
  - apply elem_of_nil in Hin. contradiction.
  - rewrite list_of_event_updates_cons.
    destruct row as [|position data]; [reflexivity |].
    apply elem_of_cons in Hin. destruct Hin as [Habs | Hin]; [discriminate Habs |].
    rewrite (IH Hin). reflexivity.
Qed.




(** X8: [update_function] does not look at the rows before it returns: when
    the datastore answers with rows of which one is the empty tuple, the
    call still returns a generator, having issued its one query, and the
    [IndexError] is raised only when the generator is iterated. *)
Theorem update_function_empty_row_deferred
    (store : datastore) (from_token current_token : Z) (limit : option nat)
    (rows : list (list value)) :
  store (get_all_new_forward_event_rows from_token current_token limit) = Ok rows ->
  [] ∈ rows ->
  ∃ gen : list (result value),
    run store (update_function from_token current_token limit) =
      (Ok gen, [get_all_new_forward_event_rows from_token current_token limit]) ∧
    list_of gen = Raise IndexError.
Proof.
  intros Hstore Hin. exists (event_updates rows).
  rewrite run_update_function, Hstore.
  split; [reflexivity | apply list_of_event_updates_empty_row, Hin].
Qed.

Lemma update_function_empty_row_deferred_witness :
  let rows :=
    [[VInt 10; VStr "$a"; VStr "!r1"; VStr "m.text"; VNone; VNone]; []] in
  let store : datastore := fun _ => Ok rows in
  store (get_all_new_forward_event_rows 5 11 (Some 100%nat)) = Ok rows ∧
  [] ∈ rows ∧
  ∃ gen : list (result value),
    run store (update_function 5 11 (Some 100%nat)) =
      (Ok gen, [get_all_new_forward_event_rows 5 11 (Some 100%nat)]) ∧
    list_of gen = Raise IndexError.
Proof.
  split; [reflexivity |].
  split; [apply list_elem_of_In; simpl; right; left; reflexivity |].
  apply (update_function_empty_row_deferred
    (fun _ => Ok [[VInt 10; VStr "$a"; VStr "!r1"; VStr "m.text"; VNone; VNone]; []])
    5 11 (Some 100%nat)
    [[VInt 10; VStr "$a"; VStr "!r1"; VStr "m.text"; VNone; VNone]; []]).
  - reflexivity.
  - apply list_elem_of_In; simpl; right; left; reflexivity.
Defined.

(** ** From the feed to the decoder *)


